(** * Contapersone: the two React pages, embedded and verified

    The repository holds two build-free pages written against React's
    [createElement] API:

    - [script.js]: [Header], [Counter], [Lista], [Footer] composed by [App];
    - the Home page: [Home] composed by [App].

    The component functions are embedded as they are written: each one is a
    computation over the page memory (the hook cells and the heap of array
    objects) that returns an element tree.  Event handlers are kept as
    closures: the function together with the value of the variable it
    captured when the component rendered, so that a handler acts on the
    state of the render it comes from.

    React itself is not part of the repository; the fragment of it the
    pages rely on ([createElement], [useState], the re-render that follows a
    click) is modelled in [Module React] after its documented behaviour.
    Numbers are IEEE 754 binary64 values, of which only integers occur; an
    array is the list of its elements, at most 2^32 - 1 of them. *)

From stdpp Require Import base numbers list strings gmap pretty.

Set Warnings "-register-all".

Local Open Scope string_scope.
Local Open Scope list_scope.
Local Open Scope Z_scope.

(** * JavaScript values *)

Module Js.

(** 2^53: up to here every integer is a Number (IEEE 754 binary64). *)
Definition two53 : Z := 9007199254740992.

(** The Number nearest to the integer [z], ties to the even significand:
    the rounding every arithmetic operation ends with.  (Valid for
    [|z| < 2^1024], where no overflow to Infinity occurs.) *)
Definition round_binary64 (z : Z) : Z :=
  let a := Z.abs z in
  if a <? two53 then z
  else
    let ulp := 2 ^ (Z.log2 a - 52) in
    let q := a / ulp in
    let r := a mod ulp in
    let q' :=
      if 2 * r <? ulp then q
      else if ulp <? 2 * r then q + 1
      else if Z.even q then q else q + 1 in
    Z.sgn z * (q' * ulp).

(** [a + b] on two integer-valued Numbers. *)
Definition number_add (a b : Z) : Z := round_binary64 (a + b).

(** Number::toString in radix 10.  For an integer of magnitude below 10^21
    this is its decimal numeral, which is all the pages ever print. *)
Definition number_to_string (z : Z) : string := pretty z.

(** [s + n] with a string on the left: string concatenation. *)
Definition string_add_number (s : string) (n : Z) : string :=
  s +:+ number_to_string n.

(** 2^32 - 1: the largest length an array can have.  The indices of its
    elements are the integers below it. *)
Definition max_array_length : Z := 4294967295.

(** [xs.length], for the list [xs] of the elements of an array.  The list
    a component's state refers to never has more than [max_array_length]
    elements (see [array_spread_then]; proved for every reachable state
    below). *)
Definition array_length {A} (xs : list A) : Z := Z.of_nat (length xs).

(** The elements of the array literal [[...xs, x]].  Those of [xs] are
    stored at the indices 0, 1, ..., and [x] at the next one, [xs.length].
    Only an integer below 2^32 - 1 is an array index: when [xs] is full, [x]
    is stored as an ordinary property, which is no element and leaves the
    length as it is. *)
Definition array_spread_then {A} (xs : list A) (x : A) : list A :=
  if array_length xs <? max_array_length then xs ++ [x] else xs.

End Js.

(** * The fragment of React the pages use *)

Module React.

(** Arrays are objects: a state cell holds a reference into the heap. *)
Definition loc := positive.

(** The two function values the pages hand to React as event handlers,
    each with the variable it closes over. *)
Inductive closure :=
| counter_onClick (count : Z)    (* () => setCount(count + 1) *)
| aggiungiElemento (items : loc). (* function aggiungiElemento() {...} *)

Inductive prop_value :=
| PString (s : string)
| PNumber (n : Z)
| PFunction (f : closure).

(** What [createElement] describes, after the renderer has called the
    component functions: a host element has its type, its key, its props
    and its children; a component node keeps the tree its function
    returned. *)
Inductive element :=
| Text (s : string)
| Fragment (children : list element)     (* an array passed as one child *)
| Element (type : string) (key : option string)
          (props : list (string * prop_value)) (children : list element)
| Component (name : string) (rendered : element).

Fixpoint assoc {A} (k : string) (ps : list (string * A)) : option A :=
  match ps with
  | [] => None
  | (k', v) :: ps => if decide (k' = k) then Some v else assoc k ps
  end.

(** The source text of a function, which is what converting it to a string
    gives. *)
Definition function_source (f : closure) : string :=
  let quote := String (Ascii.ascii_of_nat 34) EmptyString in
  let newline := String (Ascii.ascii_of_nat 10) EmptyString in
  match f with
  | counter_onClick _ => "() => setCount(count + 1)"
  | aggiungiElemento _ =>
      "function aggiungiElemento() {" +:+ newline
      +:+ "    setItems([...items, " +:+ quote +:+ "Elemento " +:+ quote
      +:+ " + (items.length + 1)]);" +:+ newline
      +:+ "  }"
  end.

(** ['' + v]. *)
Definition to_string (v : prop_value) : string :=
  match v with
  | PString s => s
  | PNumber n => Js.number_to_string n
  | PFunction f => function_source f
  end.

(** [e(type, config, ...children)] for a host tag; a [null] config is [].
    [createElement] takes [key] out of the config and keeps it, converted to
    a string, beside the props; the rest of the config are the props. *)
Definition e (type : string) (config : list (string * prop_value))
    (children : list element) : element :=
  Element type (to_string <$> assoc "key" config)
    (List.filter (λ p, negb (String.eqb p.1 "key")) config) children.

(** The memory of one mounted page: the array objects, one hook cell per
    stateful component instance ([None] until its first render), and the
    components whose cell was set and that await their re-render. *)
Record world := World {
  heap : gmap loc (list string);
  count_cell : option Z;
  items_cell : option loc;
  queue : list string
}.

Definition unmounted : world :=
  {| heap := ∅; count_cell := None; items_cell := None; queue := [] |}.

(** Computations over the page memory. *)
Definition M (A : Type) : Type := world → A * world.

Definition ret {A} (a : A) : M A := λ w, (a, w).

Definition bind {A B} (m : M A) (k : A → M B) : M B :=
  λ w, let (a, w') := m w in k a w'.

Declare Scope react_scope.
Delimit Scope react_scope with react.
Notation "'let!' x ':=' m 'in' k" := (bind m (λ x, k))
  (at level 10, x binder, m at level 100, k at level 200) : react_scope.
Local Open Scope react_scope.

(** An array literal allocates a new object. *)
Definition array_literal (xs : list string) : M loc := λ w,
  let l := fresh (dom (heap w)) in
  (l, {| heap := <[l := xs]> (heap w);
         count_cell := count_cell w;
         items_cell := items_cell w;
         queue := queue w |}).

(** Reading the elements of an array (iteration by spread or [map]). *)
Definition array_elements (l : loc) : M (list string) := λ w,
  (default [] (heap w !! l), w).

(** A hook cell of the page memory, with the component that owns it. *)
Record cell (A : Type) := Cell {
  get : world → option A;
  put : A → world → world;
  owner : string
}.
Arguments get {A}.
Arguments put {A}.
Arguments owner {A}.

Definition count_hook : cell Z :=
  {| get := count_cell;
     put := λ v w, {| heap := heap w; count_cell := Some v;
                      items_cell := items_cell w; queue := queue w |};
     owner := "Counter" |}.

Definition items_hook : cell loc :=
  {| get := items_cell;
     put := λ v w, {| heap := heap w; count_cell := count_cell w;
                      items_cell := Some v; queue := queue w |};
     owner := "Lista" |}.

Definition enqueue (name : string) (w : world) : world :=
  {| heap := heap w; count_cell := count_cell w; items_cell := items_cell w;
     queue := queue w ++ [name] |}.

Definition clear_queue (w : world) : world :=
  {| heap := heap w; count_cell := count_cell w; items_cell := items_cell w;
     queue := [] |}.

(** [React.useState(initial)]: the first render stores [initial]; every
    later render ignores it and returns the cell. *)
Definition useState {A} (c : cell A) (initial : A) : M A := λ w,
  match get c w with
  | Some v => (v, w)
  | None => (initial, put c initial w)
  end.

(** The setter returned by [useState]: replaces the cell and queues a
    re-render of the component that owns it.  (When the new value is the
    one the cell already holds React may skip that re-render; the component
    would return the tree that is on screen already.) *)
Definition setState {A} (c : cell A) (v : A) : M unit := λ w,
  (tt, enqueue (owner c) (put c v w)).

(** ** Reading a rendered tree *)

(** The host elements with tag [tag], in document order. *)
Fixpoint select (tag : string) (el : element) : list element :=
  match el with
  | Text _ => []
  | Fragment cs => flat_map (select tag) cs
  | Element t _ _ cs =>
      (if decide (t = tag) then [el] else []) ++ flat_map (select tag) cs
  | Component _ r => select tag r
  end.

(** The trees rendered by the instances of component [name]. *)
Fixpoint component (name : string) (el : element) : list element :=
  match el with
  | Text _ => []
  | Fragment cs => flat_map (component name) cs
  | Element _ _ _ cs => flat_map (component name) cs
  | Component n r =>
      (if decide (n = name) then [r] else []) ++ component name r
  end.

(** Every host element of the tree. *)
Fixpoint elements (el : element) : list element :=
  match el with
  | Text _ => []
  | Fragment cs => flat_map elements cs
  | Element _ _ _ cs => el :: flat_map elements cs
  | Component _ r => elements r
  end.

(** The text a tree shows. *)
Fixpoint textContent (el : element) : string :=
  match el with
  | Text s => s
  | Fragment cs => String.concat "" (map textContent cs)
  | Element _ _ _ cs => String.concat "" (map textContent cs)
  | Component _ r => textContent r
  end.

Definition prop (name : string) (el : element) : option prop_value :=
  match el with
  | Element _ _ ps _ => assoc name ps
  | _ => None
  end.

(** The key of a host element. *)
Definition key_of (el : element) : option string :=
  match el with
  | Element _ k _ _ => k
  | _ => None
  end.

Definition is_function (v : prop_value) : bool :=
  match v with PFunction _ => true | _ => false end.

(** An element a user can operate: a form control, a link, or any
    element that carries a function-valued property (an event handler). *)
Definition interactive (el : element) : bool :=
  match el with
  | Element t _ ps _ =>
      bool_decide (t ∈ ["button"; "input"; "select"; "textarea"; "a"])
      || existsb (λ p, is_function p.2) ps
  | _ => false
  end.

Definition heading (el : element) : bool :=
  match el with
  | Element t _ _ _ =>
      bool_decide (t ∈ ["h1"; "h2"; "h3"; "h4"; "h5"; "h6"])
  | _ => false
  end.

(** The tree with the output of component [name] replaced by [new]. *)
Fixpoint splice (name : string) (new : element) (el : element) : element :=
  match el with
  | Text s => Text s
  | Fragment cs => Fragment (map (splice name new) cs)
  | Element t k ps cs => Element t k ps (map (splice name new) cs)
  | Component n r =>
      if decide (n = name) then Component n new
      else Component n (splice name new r)
  end.

(** The [onClick] handler of the first button that shows [label]. *)
Definition onClick_of (label : string) (el : element) : option closure :=
  match
    head (filter (λ b, textContent b = label) (select "button" el))
      ≫= prop "onClick"
  with
  | Some (PFunction f) => Some f
  | _ => None
  end.

End React.

(** * script.js *)

Module Script.
Import React.
Local Open Scope react_scope.

(** Each component is its hook calls followed by its [return] expression;
    the expression is given as a function of the local variables it reads
    ([xs] stands for the elements of the array [items] refers to, which
    [items.map] enumerates). *)

Definition Header_return : element :=
  e "header" []
    [ e "h1" [] [Text "Il mio sito con React"];
      e "p" [] [Text "Senza JSX, senza build 😎"] ].

Definition Header : M element := ret Header_return.

Definition Counter_return (count : Z) : element :=
  e "div" []
    [ e "h2" [] [Text "Contatore"];
      e "p" [] [Text (Js.string_add_number "Valore: " count)];
      e "button" [("onClick", PFunction (counter_onClick count))]
        [Text "Aumenta"] ].

Definition Counter : M element :=
  let! count := useState count_hook 0 in
  ret (Counter_return count).

Definition Lista_return (items : loc) (xs : list string) : element :=
  e "div" []
    [ e "h2" [] [Text "Lista dinamica"];
      e "ul" []
        [ Fragment
            (imap (λ index item,
                     e "li" [("key", PNumber (Z.of_nat index))] [Text item])
                  xs) ];
      e "button" [("onClick", PFunction (aggiungiElemento items))]
        [Text "Aggiungi"] ].

Definition Lista : M element :=
  let! seed := array_literal ["ALALALALA"] in
  let! items := useState items_hook seed in
  let! xs := array_elements items in
  ret (Lista_return items xs).

Definition Footer_return : element :=
  e "footer" [] [ e "p" [] [Text "© 2026 - React CDN"] ].

Definition Footer : M element := ret Footer_return.

(** [e(C)] for a component [C]: the renderer calls [C] and keeps what it
    returned under a component node. *)
Definition App_return (header counter lista footer : element) : element :=
  e "div" []
    [ Component "Header" header;
      e "main" []
        [ Component "Counter" counter;
          e "hr" [] [];
          Component "Lista" lista ];
      Component "Footer" footer ].

Definition App : M element :=
  let! header := Header in
  let! counter := Counter in
  let! lista := Lista in
  let! footer := Footer in
  ret (App_return header counter lista footer).

(** Calling a handler.  [counter_onClick count] is
    [() => setCount(count + 1)]; [aggiungiElemento items] is
    [setItems([...items, "Elemento " + (items.length + 1)])]. *)
Definition call (f : closure) : M unit :=
  match f with
  | counter_onClick count =>
      setState count_hook (Js.number_add count 1)
  | aggiungiElemento items =>
      let! xs := array_elements items in
      let! new :=
        array_literal
          (Js.array_spread_then xs
             (Js.string_add_number "Elemento "
                (Js.number_add (Js.array_length xs) 1)))
      in
      setState items_hook new
  end.

(** The component functions of the page, by name. *)
Definition function_of (name : string) : option (M element) :=
  assoc name
    [ ("App", App); ("Header", Header); ("Counter", Counter);
      ("Lista", Lista); ("Footer", Footer) ].

(** A mounted root: the page memory and the tree on screen. *)
Record root := Root { memory : world; screen : element }.

(** [ReactDOM.createRoot(...).render(e(App))]: the first render pass. *)
Definition mount : root :=
  let (tree, w) := App unmounted in
  {| memory := w; screen := Component "App" tree |}.

(** A re-render of component [name]: its function runs again on the
    current memory and its output replaces the old one on screen. *)
Definition rerender (name : string) (r : root) : root :=
  match function_of name with
  | Some f =>
      let (tree, w) := f (memory r) in
      {| memory := w; screen := splice name tree (screen r) |}
  | None => r
  end.

(** The queued re-renders, in the order they were queued. *)
Definition flush (r : root) : root :=
  foldl (λ r name, rerender name r)
    {| memory := clear_queue (memory r); screen := screen r |}
    (queue (memory r)).

(** A click on the button that shows [label]: its handler runs, and the
    re-render it queued is done before the next event is handled.  A label
    no button shows is no event at all. *)
Definition click (label : string) (r : root) : root :=
  match onClick_of label (screen r) with
  | Some f =>
      flush {| memory := (call f (memory r)).2; screen := screen r |}
  | None => r
  end.

Definition clicks (n : N) (label : string) (r : root) : root :=
  N.iter n (click label) r.

(** The states of the mounted page: any clicks, and any re-renders React
    chooses to do between them. *)
Inductive reachable : root → Prop :=
| reachable_mount : reachable mount
| reachable_click label r : reachable r → reachable (click label r)
| reachable_rerender name r : reachable r → reachable (rerender name r).

(** ** What the page holds and shows *)

(** The value of the Counter's state cell. *)
Definition count (r : root) : option Z := count_cell (memory r).

(** The array the Lista's state cell refers to. *)
Definition items (r : root) : option (list string) :=
  items_cell (memory r) ≫= λ l, heap (memory r) !! l.

(** The text of the paragraph inside the Counter. *)
Definition displayed (r : root) : list string :=
  textContent <$> flat_map (select "p") (component "Counter" (screen r)).

(** The texts of the list entries, in order. *)
Definition rendered_items (r : root) : list string :=
  textContent <$> select "li" (screen r).

(** ** The page as a function of its state *)

(** The tree on screen when the Counter holds [c] and the Lista holds a
    reference [l] to an array with elements [xs]. *)
Definition page (c : Z) (l : loc) (xs : list string) : element :=
  Component "App"
    (App_return Header_return (Counter_return c) (Lista_return l xs)
       Footer_return).

(** Both cells are initialised, the Lista's reference is live, and no
    re-render is pending. *)
Definition mounted (w : world) (c : Z) (l : loc) (xs : list string) : Prop :=
  count_cell w = Some c ∧ items_cell w = Some l ∧ heap w !! l = Some xs
  ∧ queue w = [].

(** The root holds the state [(c, l, xs)] and its screen shows it. *)
Definition shows (r : root) (c : Z) (l : loc) (xs : list string) : Prop :=
  mounted (memory r) c l xs ∧ screen r = page c l xs.

(** The label of the entry at 1-indexed position [k]. *)
Definition Elemento (k : Z) : string := Js.string_add_number "Elemento " k.

(** The Lista's array after [n] appends. *)
Definition entries (n : nat) : list string :=
  "ALALALALA" :: ((λ k, Elemento (Z.of_nat k)) <$> seq 2 n).

(** The list [aggiungiElemento] builds from the list [xs]. *)
Definition appended (xs : list string) : list string :=
  Js.array_spread_then xs
    (Js.string_add_number "Elemento " (Js.number_add (Js.array_length xs) 1)).

(** The number of appended entries the list holds after [b] clicks on
    "Aggiungi": with the seed, the array is full at 2^32 - 1 elements. *)
Definition appended_after (b : Z) : nat :=
  Z.to_nat (Z.min b (Js.max_array_length - 1)).

(** What every reachable root satisfies (proved below): the screen shows the
    state, the count is a non-negative integer no larger than 2^53, and the
    list is the seed followed by consecutively numbered entries, at most
    2^32 - 1 in all. *)
Definition invariant (r : root) : Prop :=
  ∃ c l n, shows r c l (entries n)
           ∧ 0 ≤ c ≤ Js.two53
           ∧ Js.array_length (entries n) ≤ Js.max_array_length.

(** ** Further readings of the page, and runs of clicks *)

(** The key of each list entry, in order. *)
Definition rendered_keys (r : root) : list (option string) :=
  key_of <$> select "li" (screen r).

(** Each list entry as React identifies it: its key with its text. *)
Definition rendered_entries (r : root) : list (option string * string) :=
  (λ li, (key_of li, textContent li)) <$> select "li" (screen r).

(** The labels of the buttons on screen, in order. *)
Definition buttons (r : root) : list string :=
  textContent <$> select "button" (screen r).

(** A sequence of clicks, given by the labels clicked, oldest first. *)
Definition run (labels : list string) (r : root) : root :=
  foldl (λ r label, click label r) r labels.

(** How often [label] occurs in a sequence of clicks. *)
Definition presses (label : string) (labels : list string) : nat :=
  length (filter (λ l, l = label) labels).

End Script.

(** * The Home page *)

Module HomePage.
Import React.
Local Open Scope react_scope.

Definition Home : M element :=
  ret (e "div" [("className", PString "home")]
         [ e "header" [] [ e "h1" [] [Text "Contapersone"] ] ]).

Definition App : M element :=
  let! home := Home in
  ret (Component "Home" home).

Definition mount : element := Component "App" (App unmounted).1.

End HomePage.


(** * Numbers and strings *)

Section Numbers.
Import Js.

Lemma round_binary64_exact z : Z.abs z < two53 → round_binary64 z = z.
Proof.
  intros H. unfold round_binary64. cbv zeta.
  destruct (Z.ltb_spec (Z.abs z) two53) as [_|Hge]; [done | lia].
Qed.

Lemma number_add_1_exact c : 0 ≤ c < two53 → number_add c 1 = c + 1.
Proof.
  intros [H0 H1]. unfold number_add.
  destruct (decide (c + 1 = two53)) as [->|Hne]; [done|].
  apply round_binary64_exact. lia.
Qed.

Lemma number_add_1_top : number_add two53 1 = two53.
Proof. done. Qed.

Lemma number_add_1_range c :
  0 ≤ c ≤ two53 → 0 ≤ number_add c 1 ≤ two53.
Proof.
  intros [H0 H1]. destruct (decide (c = two53)) as [->|Hne].
  - rewrite number_add_1_top. unfold two53. lia.
  - rewrite number_add_1_exact by lia. lia.
Qed.

Lemma number_add_1_min n :
  0 ≤ n → number_add (Z.min n two53) 1 = Z.min (n + 1) two53.
Proof.
  intros Hn. destruct (Z.lt_ge_cases n two53) as [Hlt|Hge].
  - rewrite Z.min_l by lia. rewrite number_add_1_exact by lia. lia.
  - rewrite !Z.min_r by lia. apply number_add_1_top.
Qed.

Lemma string_add_number_inj s : Inj (=) (=) (string_add_number s).
Proof.
  intros a b H. unfold string_add_number, number_to_string in H.
  apply (inj (String.app s)) in H. by apply (inj pretty) in H.
Qed.

End Numbers.

(** * Rendering on a mounted page *)

Section Rendering.
Import React Script.

Lemma fresh_unallocated (h : gmap loc (list string)) :
  h !! fresh (dom h) = None.
Proof. apply not_elem_of_dom, is_fresh. Qed.

Lemma fresh_ne_live (h : gmap loc (list string)) l xs :
  h !! l = Some xs → fresh (dom h) ≠ l.
Proof. intros Hl <-. by rewrite fresh_unallocated in Hl. Qed.

Lemma array_literal_mono ys w : heap w ⊆ heap (array_literal ys w).2.
Proof. cbn. apply insert_subseteq, fresh_unallocated. Qed.

Lemma array_literal_mounted ys w c l xs :
  mounted w c l xs → mounted (array_literal ys w).2 c l xs.
Proof.
  intros (Hc & Hi & Hl & Hq). repeat split; cbn; [done..| |done].
  rewrite lookup_insert_ne by by eapply fresh_ne_live. done.
Qed.

Lemma Counter_mounted w c l xs :
  mounted w c l xs → Counter w = (Counter_return c, w).
Proof.
  intros (Hc & _). unfold Counter, bind, useState. cbn. by rewrite Hc.
Qed.

(** A render of [Lista] allocates the array literal that is the argument
    of [useState], and does nothing else to the memory. *)
Lemma Lista_mounted w c l xs :
  mounted w c l xs →
  Lista w = (Lista_return l xs, (array_literal ["ALALALALA"] w).2).
Proof.
  intros (_ & Hi & Hl & _).
  unfold Lista, bind, useState, array_elements. cbn. rewrite Hi. cbn.
  rewrite lookup_insert_ne by by eapply fresh_ne_live.
  by rewrite Hl.
Qed.

Lemma App_mounted w c l xs :
  mounted w c l xs →
  App w
  = (App_return Header_return (Counter_return c) (Lista_return l xs)
       Footer_return,
     (array_literal ["ALALALALA"] w).2).
Proof.
  intros H. unfold App, bind, Header, Footer, ret.
  rewrite (Counter_mounted _ _ _ _ H), (Lista_mounted _ _ _ _ H). done.
Qed.

Lemma mount_shows : shows mount 0 1%positive ["ALALALALA"].
Proof. split; [by repeat split|done]. Qed.

End Rendering.

(** * Reading the page *)

Section Reading.
Import React Script.

Lemma flat_map_imap_each {A B} (q : B → list B) (f : nat → A → B) (P : bool)
    (xs : list A) :
  (∀ i x, q (f i x) = if P then [f i x] else []) →
  flat_map q (imap f xs) = if P then imap f xs else [].
Proof.
  revert f. induction xs as [|x xs IH]; intros f Hf.
  - by destruct P.
  - cbn [imap flat_map]. rewrite (IH (f ∘ S)) by (intros; apply Hf).
    rewrite Hf. by destruct P.
Qed.

Lemma select_entries tag (xs : list string) :
  flat_map (select tag)
    (imap (λ index item,
             e "li" [("key", PNumber (Z.of_nat index))] [Text item]) xs)
  = if bool_decide ("li" = tag)
    then imap (λ index item,
                 e "li" [("key", PNumber (Z.of_nat index))] [Text item]) xs
    else [].
Proof.
  apply flat_map_imap_each. intros i x. cbn.
  rewrite app_nil_r. by case_decide; case_bool_decide.
Qed.

Lemma component_entries name (xs : list string) :
  flat_map (component name)
    (imap (λ index item,
             e "li" [("key", PNumber (Z.of_nat index))] [Text item]) xs)
  = [].
Proof. by apply (flat_map_imap_each _ _ false). Qed.

Lemma textContent_entries (xs : list string) :
  textContent <$>
    imap (λ index item,
            e "li" [("key", PNumber (Z.of_nat index))] [Text item]) xs
  = xs.
Proof.
  rewrite fmap_imap.
  rewrite (imap_ext _ (const id)) by done.
  by rewrite imap_const, list_fmap_id.
Qed.

Local Ltac page_tree :=
  unfold page, App_return, Header_return, Counter_return, Lista_return,
    Footer_return; cbn.

Lemma select_button_page c l xs :
  select "button" (page c l xs)
  = [ e "button" [("onClick", PFunction (counter_onClick c))] [Text "Aumenta"];
      e "button" [("onClick", PFunction (aggiungiElemento l))]
        [Text "Aggiungi"] ].
Proof.
  page_tree. by rewrite select_entries.
Qed.

Lemma select_li_page c l xs :
  select "li" (page c l xs)
  = imap (λ index item,
            e "li" [("key", PNumber (Z.of_nat index))] [Text item]) xs.
Proof.
  page_tree. rewrite select_entries. cbn. by rewrite !app_nil_r.
Qed.

Lemma component_Counter_page c l xs :
  component "Counter" (page c l xs) = [Counter_return c].
Proof.
  page_tree. by rewrite component_entries.
Qed.

Lemma onClick_of_page label c l xs :
  onClick_of label (page c l xs)
  = if decide (label = "Aumenta") then Some (counter_onClick c)
    else if decide (label = "Aggiungi") then Some (aggiungiElemento l)
    else None.
Proof.
  unfold onClick_of. rewrite select_button_page. cbn.
  repeat case_decide; simplify_eq; done.
Qed.

Lemma rendered_items_shows r c l xs : shows r c l xs → rendered_items r = xs.
Proof.
  intros [_ Hs]. unfold rendered_items. rewrite Hs, select_li_page.
  apply textContent_entries.
Qed.

Lemma displayed_shows r c l xs :
  shows r c l xs → displayed r = [Js.string_add_number "Valore: " c].
Proof.
  intros [_ Hs]. unfold displayed. by rewrite Hs, component_Counter_page.
Qed.

Lemma count_shows r c l xs : shows r c l xs → count r = Some c.
Proof. by intros [(Hc & _) _]. Qed.

Lemma items_shows r c l xs : shows r c l xs → items r = Some xs.
Proof. intros [(_ & Hi & Hl & _) _]. unfold items. by rewrite Hi. Qed.

Lemma splice_entries name new (xs : list string) :
  map (splice name new)
    (imap (λ index item,
             e "li" [("key", PNumber (Z.of_nat index))] [Text item]) xs)
  = imap (λ index item,
            e "li" [("key", PNumber (Z.of_nat index))] [Text item]) xs.
Proof.
  change (map (splice name new)) with (fmap (M:=list) (splice name new)).
  rewrite fmap_imap. by apply imap_ext.
Qed.

Lemma splice_Counter_page c' c l xs :
  splice "Counter" (Counter_return c') (page c l xs) = page c' l xs.
Proof.
  page_tree. by rewrite splice_entries.
Qed.

Lemma splice_Lista_page l' xs' c l xs :
  splice "Lista" (Lista_return l' xs') (page c l xs) = page c l' xs'.
Proof. done. Qed.

Lemma splice_Header_page c l xs :
  splice "Header" Header_return (page c l xs) = page c l xs.
Proof.
  page_tree. by rewrite splice_entries.
Qed.

Lemma splice_Footer_page c l xs :
  splice "Footer" Footer_return (page c l xs) = page c l xs.
Proof.
  page_tree. by rewrite splice_entries.
Qed.

Lemma splice_App_page tree c l xs :
  splice "App" tree (page c l xs) = Component "App" tree.
Proof. done. Qed.

End Reading.


(** * Re-renders and clicks *)

Section Click.
Import React Script.

Lemma rerender_shows name r c l xs :
  shows r c l xs →
  shows (rerender name r) c l xs
  ∧ heap (memory r) ⊆ heap (memory (rerender name r)).
Proof.
  intros [Hm Hs]. unfold rerender, function_of. cbn.
  repeat case_decide; subst.
  - rewrite (App_mounted _ _ _ _ Hm), Hs, splice_App_page.
    split; [split|]; [by apply array_literal_mounted|done|].
    apply array_literal_mono.
  - unfold Header, ret. by rewrite Hs, splice_Header_page.
  - rewrite (Counter_mounted _ _ _ _ Hm), Hs, splice_Counter_page. done.
  - rewrite (Lista_mounted _ _ _ _ Hm), Hs, splice_Lista_page.
    split; [split|]; [by apply array_literal_mounted|done|].
    apply array_literal_mono.
  - unfold Footer, ret. by rewrite Hs, splice_Footer_page.
  - done.
Qed.

(** The output of a component function depends on the two cells only: a
    second call, on the memory the first one left, returns the same tree. *)
Lemma component_output_stable name f w c l xs :
  function_of name = Some f →
  mounted w c l xs →
  mounted (f w).2 c l xs ∧ (f (f w).2).1 = (f w).1.
Proof.
  intros Hf Hm. unfold function_of in Hf. cbn in Hf.
  pose proof (array_literal_mounted ["ALALALALA"] _ _ _ _ Hm) as Hm'.
  repeat case_decide; simplify_eq.
  - rewrite (App_mounted _ _ _ _ Hm). cbn [fst snd].
    by rewrite (App_mounted _ _ _ _ Hm').
  - done.
  - rewrite (Counter_mounted _ _ _ _ Hm). cbn [fst snd].
    by rewrite (Counter_mounted _ _ _ _ Hm).
  - rewrite (Lista_mounted _ _ _ _ Hm). cbn [fst snd].
    by rewrite (Lista_mounted _ _ _ _ Hm').
  - done.
Qed.

Lemma flush_single name r :
  queue (memory r) = [name] →
  flush r
  = rerender name {| memory := clear_queue (memory r); screen := screen r |}.
Proof. intros H. unfold flush. by rewrite H. Qed.

Lemma click_Aumenta_shows r c l xs :
  shows r c l xs →
  shows (click "Aumenta" r) (Js.number_add c 1) l xs
  ∧ heap (memory (click "Aumenta" r)) = heap (memory r).
Proof.
  intros [(Hc & Hi & Hl & Hq) Hs]. unfold click.
  rewrite Hs, onClick_of_page, decide_True by done.
  rewrite (flush_single "Counter") by (cbn; by rewrite Hq).
  unfold rerender. change (function_of "Counter") with (Some Counter).
  cbn [memory screen].
  erewrite Counter_mounted by (repeat split; cbn; done).
  by rewrite splice_Counter_page.
Qed.

Lemma click_Aggiungi_shows r c l xs :
  shows r c l xs →
  shows (click "Aggiungi" r) c (fresh (dom (heap (memory r)))) (appended xs)
  ∧ heap (memory r) ⊆ heap (memory (click "Aggiungi" r)).
Proof.
  intros [(Hc & Hi & Hl & Hq) Hs]. unfold click.
  rewrite Hs, onClick_of_page, decide_False, decide_True by done.
  set (l' := fresh (dom (heap (memory r)))).
  set (xs' := appended xs).
  assert (Hcall : (call (aggiungiElemento l) (memory r)).2
                  = enqueue "Lista"
                      (put items_hook l' (array_literal xs' (memory r)).2)).
  { unfold call, bind, array_elements, setState. cbn. by rewrite Hl. }
  rewrite Hcall.
  rewrite (flush_single "Lista") by (cbn; by rewrite Hq).
  unfold rerender. change (function_of "Lista") with (Some Lista).
  cbn [memory screen].
  assert (Hm : mounted
                 (clear_queue
                    (enqueue "Lista"
                       (put items_hook l' (array_literal xs' (memory r)).2)))
                 c l' xs').
  { repeat split; cbn; [done|]. apply lookup_insert_eq. }
  rewrite (Lista_mounted _ _ _ _ Hm), splice_Lista_page.
  split; [split|]; [by apply array_literal_mounted|done|].
  etrans; [|apply array_literal_mono]. cbn.
  apply insert_subseteq, fresh_unallocated.
Qed.

Lemma click_other label r c l xs :
  shows r c l xs → label ≠ "Aumenta" → label ≠ "Aggiungi" → click label r = r.
Proof.
  intros [_ Hs] H1 H2. unfold click. rewrite Hs, onClick_of_page.
  by rewrite !decide_False.
Qed.

(** A click never changes an array that is already allocated. *)
Lemma click_heap_mono label r c l xs :
  shows r c l xs → heap (memory r) ⊆ heap (memory (click label r)).
Proof.
  intros H.
  destruct (decide (label = "Aumenta")) as [->|H1];
    [|destruct (decide (label = "Aggiungi")) as [->|H2]].
  - by rewrite (proj2 (click_Aumenta_shows _ _ _ _ H)).
  - apply (click_Aggiungi_shows _ _ _ _ H).
  - by rewrite (click_other _ _ _ _ _ H).
Qed.

Lemma entries_S n :
  entries (S n) = entries n ++ [Elemento (Js.array_length (entries n) + 1)].
Proof.
  unfold entries, Js.array_length. cbn [length].
  rewrite length_fmap, length_seq, seq_S, fmap_app. cbn.
  do 4 f_equal. lia.
Qed.

Lemma length_entries n : length (entries n) = S n.
Proof. unfold entries. cbn. by rewrite length_fmap, length_seq. Qed.

Lemma array_length_entries n :
  Js.array_length (entries n) = Z.of_nat n + 1.
Proof. unfold Js.array_length. rewrite length_entries. lia. Qed.

(** On a list that is not full the handler appends the next label; the
    Number sum [items.length + 1] is exact there. *)
Lemma appended_grows xs :
  Js.array_length xs < Js.max_array_length →
  appended xs = xs ++ [Elemento (Js.array_length xs + 1)].
Proof.
  intros Hlt. unfold appended, Js.array_spread_then.
  destruct (Z.ltb_spec (Js.array_length xs) Js.max_array_length); [|lia].
  rewrite number_add_1_exact; [done|].
  unfold Js.array_length, Js.max_array_length, Js.two53 in *. lia.
Qed.

(** On a full list the handler builds an array with the same elements. *)
Lemma appended_full xs :
  Js.max_array_length ≤ Js.array_length xs → appended xs = xs.
Proof.
  intros Hge. unfold appended, Js.array_spread_then.
  destruct (Z.ltb_spec (Js.array_length xs) Js.max_array_length); [lia|done].
Qed.

Lemma appended_entries n :
  Z.of_nat n + 1 < Js.max_array_length → appended (entries n) = entries (S n).
Proof.
  intros Hn. rewrite appended_grows, entries_S; [done|].
  by rewrite array_length_entries.
Qed.

Lemma appended_after_succ b :
  0 ≤ b →
  appended (entries (appended_after b)) = entries (appended_after (b + 1)).
Proof.
  intros Hb. unfold appended_after.
  destruct (Z.lt_ge_cases b (Js.max_array_length - 1)) as [Hlt|Hge].
  - rewrite Z.min_l, Z.min_l by lia. rewrite Z2Nat.inj_add by lia.
    rewrite Nat.add_1_r. apply appended_entries. rewrite Z2Nat.id; lia.
  - rewrite !Z.min_r by lia. apply appended_full.
    rewrite array_length_entries, Z2Nat.id; [lia|].
    unfold Js.max_array_length. lia.
Qed.

Lemma lookup_entries n (k : nat) :
  (1 ≤ k ≤ n)%nat → entries n !! k = Some (Elemento (Z.of_nat k + 1)).
Proof.
  intros Hk. destruct k as [|k]; [lia|]. unfold entries.
  rewrite lookup_cons_ne_0 by done. cbn [pred].
  rewrite list_lookup_fmap, lookup_seq_lt by lia. cbn. do 2 f_equal. lia.
Qed.

End Click.

(** * Runs of the page *)

Section Runs.
Import React Script.

Lemma clicks_succ n label r :
  clicks (N.succ n) label r = click label (clicks n label r).
Proof. apply N.iter_succ. Qed.

Lemma clicks_reachable n label r : reachable r → reachable (clicks n label r).
Proof.
  intros Hr. induction n as [|n IH] using N.peano_ind; [done|].
  rewrite clicks_succ. by constructor.
Qed.

Lemma reachable_invariant r : reachable r → invariant r.
Proof.
  induction 1 as [|label r _ (c & l & n & Hs & Hc)
                  |name r _ (c & l & n & Hs & Hc)];
    [| |exists c, l, n; split; [by apply rerender_shows|done]].
  - exists 0, 1%positive, 0%nat. split; [apply mount_shows | done].
  - destruct (decide (label = "Aumenta")) as [->|H1];
      [|destruct (decide (label = "Aggiungi")) as [->|H2]].
    + exists (Js.number_add c 1), l, n. split.
      * by apply click_Aumenta_shows.
      * split; [apply number_add_1_range|]; apply Hc.
    + pose proof (proj1 (click_Aggiungi_shows _ _ _ _ Hs)) as Hs'.
      destruct Hc as [Hc Hn].
      destruct (Z.lt_ge_cases (Js.array_length (entries n))
                  Js.max_array_length) as [Hlt|Hge].
      * exists c, (fresh (dom (heap (memory r)))), (S n).
        rewrite array_length_entries in Hlt.
        rewrite appended_entries in Hs' by done.
        split; [done|]. split; [done|]. rewrite array_length_entries. lia.
      * exists c, (fresh (dom (heap (memory r)))), n.
        by rewrite appended_full in Hs'.
    + rewrite (click_other _ _ _ _ _ Hs) by done. by exists c, l, n.
Qed.

Lemma clicks_Aumenta_shows n :
  shows (clicks n "Aumenta" mount) (Z.min (Z.of_N n) Js.two53) 1%positive
    ["ALALALALA"].
Proof.
  induction n as [|n IH] using N.peano_ind; [apply mount_shows|].
  rewrite clicks_succ, N2Z.inj_succ, <- Z.add_1_r.
  rewrite <- number_add_1_min by lia. by apply click_Aumenta_shows.
Qed.

Lemma clicks_Aggiungi_shows n :
  ∃ l, shows (clicks n "Aggiungi" mount) 0 l
         (entries (appended_after (Z.of_N n))).
Proof.
  induction n as [|n [l IH]] using N.peano_ind.
  - exists 1%positive. apply mount_shows.
  - eexists. rewrite clicks_succ, N2Z.inj_succ, <- Z.add_1_r.
    rewrite <- appended_after_succ by lia.
    by eapply click_Aggiungi_shows.
Qed.

(** The list of a reachable state is an array: it has at most 2^32 - 1
    elements. *)
Lemma reachable_array_length r xs :
  reachable r → items r = Some xs →
  Js.array_length xs ≤ Js.max_array_length.
Proof.
  intros (c & l & n & Hs & _ & Hn)%reachable_invariant Hxs.
  rewrite (items_shows _ _ _ _ Hs) in Hxs. by injection Hxs as <-.
Qed.

Lemma Elemento_inj : Inj (=) (=) Elemento.
Proof. apply string_add_number_inj. Qed.

Lemma NoDup_entries n : NoDup (entries n).
Proof.
  unfold entries. apply NoDup_cons. split.
  - intros (k & Hk & _)%list_elem_of_fmap. discriminate Hk.
  - apply NoDup_fmap_2; [|apply NoDup_seq].
    intros a b H%Elemento_inj. lia.
Qed.

End Runs.

(** * The Lista component *)

Section ListaClaims.
Import React Script.

(** C1, as amended.  Starting from the freshly mounted page (list state
    ["ALALALALA"]), after [n] clicks on "Aggiungi" with [n ≤ 2^32 - 2] the
    rendered list has exactly [n + 1] entries and equals the list state; its
    first entry is the seed "ALALALALA"; and for [1 ≤ k ≤ n] the [k]-th
    appended entry, which stands at 1-indexed position [k + 1] (0-indexed
    [k]), reads "Elemento " followed by the numeral of [k + 1]. *)
Theorem append_n_rendered_entries (n : nat) :
  Z.of_nat n < Js.max_array_length →
  length (rendered_items (clicks (N.of_nat n) "Aggiungi" mount)) = S n
  ∧ items (clicks (N.of_nat n) "Aggiungi" mount)
    = Some (rendered_items (clicks (N.of_nat n) "Aggiungi" mount))
  ∧ rendered_items (clicks (N.of_nat n) "Aggiungi" mount) !! 0%nat
    = Some "ALALALALA"
  ∧ ∀ k : nat, (1 ≤ k ≤ n)%nat →
      rendered_items (clicks (N.of_nat n) "Aggiungi" mount) !! k
      = Some (Js.string_add_number "Elemento " (Z.of_nat k + 1)).
Proof.
  intros Hn. destruct (clicks_Aggiungi_shows (N.of_nat n)) as [l Hs].
  unfold appended_after in Hs.
  rewrite nat_N_Z, Z.min_l, Nat2Z.id in Hs by lia.
  rewrite (rendered_items_shows _ _ _ _ Hs), (items_shows _ _ _ _ Hs).
  split_and!.
  - apply length_entries.
  - done.
  - done.
  - intros k Hk. by apply lookup_entries.
Qed.

Lemma append_two_rendered_entries :
  Z.of_nat 2 < Js.max_array_length
  ∧ length (rendered_items (clicks 2 "Aggiungi" mount)) = 3%nat
  ∧ rendered_items (clicks 2 "Aggiungi" mount) !! 0%nat = Some "ALALALALA"
  ∧ rendered_items (clicks 2 "Aggiungi" mount) !! 2%nat = Some "Elemento 3".
Proof.
  assert (H : Z.of_nat 2 < Js.max_array_length) by reflexivity.
  destruct (append_n_rendered_entries 2 H) as (H1 & _ & H3 & H4).
  split; [exact H|]. split; [exact H1|]. split; [exact H3|].
  exact (H4 2%nat (conj (le_S 1 1 (le_n 1)) (le_n 2))).
Defined.

(** C1 as stated fails: an array has at most 2^32 - 1 elements.  After
    2^32 - 1 clicks the rendered list has 2^32 - 1 entries, not 2^32. *)
Lemma append_past_array_limit :
  Z.of_nat (length (rendered_items (clicks 4294967295 "Aggiungi" mount)))
  = 4294967295
  ∧ Z.of_nat (length (rendered_items (clicks 4294967295 "Aggiungi" mount)))
    ≠ 4294967295 + 1.
Proof.
  destruct (clicks_Aggiungi_shows 4294967295) as [l Hs].
  rewrite (rendered_items_shows _ _ _ _ Hs).
  change (Z.of_nat (length ?x)) with (Js.array_length x).
  rewrite array_length_entries. unfold appended_after.
  rewrite Z2Nat.id by (vm_compute; discriminate).
  split; [reflexivity|]. vm_compute. discriminate.
Qed.

(** C3, as amended.  In every reachable state whose current list [xs] has
    fewer than 2^32 - 1 elements, one click on "Aggiungi" replaces the list
    state by [xs] followed by exactly one new string, "Elemento " followed
    by the numeral of [length xs + 1]; the rendered list gains that one
    entry after all existing ones. *)
Theorem append_concatenates_one_label (r : root) (xs : list string) :
  reachable r →
  items r = Some xs →
  Js.array_length xs < Js.max_array_length →
  items (click "Aggiungi" r)
  = Some (xs ++ [Js.string_add_number "Elemento " (Js.array_length xs + 1)])
  ∧ rendered_items (click "Aggiungi" r)
    = rendered_items r
      ++ [Js.string_add_number "Elemento " (Js.array_length xs + 1)].
Proof.
  intros (c & l & n & Hs & _)%reachable_invariant Hxs Hlt.
  rewrite (items_shows _ _ _ _ Hs) in Hxs. injection Hxs as <-.
  pose proof (proj1 (click_Aggiungi_shows _ _ _ _ Hs)) as Hs'.
  rewrite appended_grows in Hs' by done.
  rewrite (items_shows _ _ _ _ Hs'), (rendered_items_shows _ _ _ _ Hs').
  by rewrite (rendered_items_shows _ _ _ _ Hs).
Qed.

(** Scenarios B and C, as instances of C3: one click on the fresh page
    yields ["ALALALALA"; "Elemento 2"], a second one
    ["ALALALALA"; "Elemento 2"; "Elemento 3"]. *)
Lemma append_scenarios_B_C :
  (reachable mount
   ∧ items mount = Some ["ALALALALA"]
   ∧ items (click "Aggiungi" mount) = Some ["ALALALALA"; "Elemento 2"]
   ∧ rendered_items (click "Aggiungi" mount) = ["ALALALALA"; "Elemento 2"])
  ∧ (reachable (click "Aggiungi" mount)
     ∧ items (click "Aggiungi" (click "Aggiungi" mount))
       = Some ["ALALALALA"; "Elemento 2"; "Elemento 3"]
     ∧ rendered_items (click "Aggiungi" (click "Aggiungi" mount))
       = ["ALALALALA"; "Elemento 2"; "Elemento 3"]).
Proof.
  pose proof (append_concatenates_one_label mount ["ALALALALA"]
                reachable_mount eq_refl eq_refl) as [B1 B2].
  pose proof (append_concatenates_one_label (click "Aggiungi" mount)
                ["ALALALALA"; "Elemento 2"]
                (reachable_click "Aggiungi" mount reachable_mount) B1
                eq_refl)
    as [C1 C2].
  split.
  - split; [exact reachable_mount|]. split; [reflexivity|].
    split; [exact B1|exact B2].
  - split; [exact (reachable_click "Aggiungi" mount reachable_mount)|].
    split; [exact C1|]. rewrite C2, B2. reflexivity.
Defined.

(** C3 as stated fails: the state reached by 2^32 - 2 clicks holds a list
    of 2^32 - 1 elements, and one more click leaves the list, in the state
    and on screen, with the same elements. *)
Lemma append_on_full_list :
  reachable (clicks 4294967294 "Aggiungi" mount)
  ∧ ∃ xs : list string,
      items (clicks 4294967294 "Aggiungi" mount) = Some xs
      ∧ Js.array_length xs = 4294967295
      ∧ items (click "Aggiungi" (clicks 4294967294 "Aggiungi" mount))
        = Some xs
      ∧ rendered_items (click "Aggiungi" (clicks 4294967294 "Aggiungi" mount))
        = rendered_items (clicks 4294967294 "Aggiungi" mount).
Proof.
  split; [apply clicks_reachable, reachable_mount|].
  destruct (clicks_Aggiungi_shows 4294967294) as [l Hs].
  pose proof (proj1 (click_Aggiungi_shows _ _ _ _ Hs)) as Hs'.
  assert (Hlen : Js.array_length (entries (appended_after (Z.of_N 4294967294)))
                 = 4294967295).
  { rewrite array_length_entries. unfold appended_after.
    rewrite Z2Nat.id by (vm_compute; discriminate). reflexivity. }
  rewrite appended_full in Hs' by (rewrite Hlen; reflexivity).
  eexists. split; [exact (items_shows _ _ _ _ Hs)|].
  split; [exact Hlen|]. split; [exact (items_shows _ _ _ _ Hs')|].
  by rewrite (rendered_items_shows _ _ _ _ Hs'),
    (rendered_items_shows _ _ _ _ Hs).
Qed.

(** C10.  In every reachable state the list state [xs] (which is what the
    list on screen shows) has "Elemento " followed by the numeral of [k] at
    every 1-indexed position [k ≥ 2]; it is the seed followed by the labels
    2, 3, ..., [length xs], hence determined by its length; and its entries
    are pairwise distinct. *)
Theorem entries_determined_by_length (r : root) :
  reachable r →
  ∃ xs : list string,
    items r = Some xs
    ∧ rendered_items r = xs
    ∧ (∀ k : nat, (2 ≤ k ≤ length xs)%nat →
         xs !! (k - 1)%nat
         = Some (Js.string_add_number "Elemento " (Z.of_nat k)))
    ∧ xs = entries (length xs - 1)
    ∧ NoDup xs.
Proof.
  intros (c & l & n & Hs & _)%reachable_invariant.
  exists (entries n). rewrite length_entries. split_and!.
  - by eapply items_shows.
  - by eapply rendered_items_shows.
  - intros k Hk. rewrite lookup_entries by lia.
    unfold Elemento. do 2 f_equal. lia.
  - f_equal. lia.
  - apply NoDup_entries.
Qed.

Lemma entries_determined_by_length_fresh :
  reachable (click "Aggiungi" mount)
  ∧ ∃ xs : list string,
      items (click "Aggiungi" mount) = Some xs
      ∧ rendered_items (click "Aggiungi" mount) = xs
      ∧ (∀ k : nat, (2 ≤ k ≤ length xs)%nat →
           xs !! (k - 1)%nat
           = Some (Js.string_add_number "Elemento " (Z.of_nat k)))
      ∧ xs = entries (length xs - 1)
      ∧ NoDup xs.
Proof.
  split.
  - exact (reachable_click "Aggiungi" mount reachable_mount).
  - exact (entries_determined_by_length (click "Aggiungi" mount)
             (reachable_click "Aggiungi" mount reachable_mount)).
Defined.

End ListaClaims.

(** * The Counter component *)

Section CounterClaims.
Import React Script.

(** C2, as amended.  Starting from the freshly mounted page (count 0), after
    [n] clicks on "Aumenta" with [n ≤ 2^53] the count is exactly [n] and the
    Counter's paragraph shows "Valore: " followed by the numeral of [n]. *)
Theorem increment_n_displayed (n : N) :
  Z.of_N n ≤ Js.two53 →
  count (clicks n "Aumenta" mount) = Some (Z.of_N n)
  ∧ displayed (clicks n "Aumenta" mount)
    = [Js.string_add_number "Valore: " (Z.of_N n)].
Proof.
  intros Hn. pose proof (clicks_Aumenta_shows n) as Hs.
  rewrite Z.min_l in Hs by done.
  rewrite (count_shows _ _ _ _ Hs), (displayed_shows _ _ _ _ Hs). done.
Qed.

(** Scenario A, as an instance of C2: three clicks on the fresh page show
    "Valore: 3". *)
Lemma increment_scenario_A :
  Z.of_N 3 ≤ Js.two53
  ∧ count (clicks 3 "Aumenta" mount) = Some 3
  ∧ displayed (clicks 3 "Aumenta" mount) = ["Valore: 3"].
Proof.
  assert (H : Z.of_N 3 ≤ Js.two53) by (vm_compute; discriminate).
  split; [exact H|]. exact (increment_n_displayed 3 H).
Defined.

(** C2 as stated fails: [count + 1] is a Number addition, and 2^53 + 1 is
    not a Number.  After 2^53 + 1 clicks the count and the display are stuck
    at 2^53 = 9007199254740992. *)
Lemma increment_past_two53 :
  count (clicks 9007199254740993 "Aumenta" mount) = Some 9007199254740992
  ∧ displayed (clicks 9007199254740993 "Aumenta" mount)
    = ["Valore: 9007199254740992"]
  ∧ displayed (clicks 9007199254740993 "Aumenta" mount)
    ≠ [Js.string_add_number "Valore: " 9007199254740993].
Proof.
  pose proof (clicks_Aumenta_shows 9007199254740993) as Hs.
  rewrite Z.min_r in Hs by (vm_compute; discriminate).
  rewrite (count_shows _ _ _ _ Hs), (displayed_shows _ _ _ _ Hs).
  split; [done|]. split; [by vm_compute|].
  intros H.
  assert (Hne : Js.two53 ≠ 9007199254740993) by (vm_compute; discriminate).
  apply Hne, (string_add_number_inj "Valore: ").
  exact (f_equal (λ l, default "" (head l)) H).
Qed.

(** C4.  In every reachable state, the initial render included, the
    Counter's paragraph shows the string "Valore: " + count for the count its
    state cell holds. *)
Theorem Counter_renders_Valore (r : root) :
  reachable r →
  ∃ c : Z,
    count r = Some c ∧ displayed r = [Js.string_add_number "Valore: " c].
Proof.
  intros (c & l & n & Hs & _)%reachable_invariant. exists c. split.
  - by eapply count_shows.
  - by eapply displayed_shows.
Qed.

(** The initial render, as an instance of C4: the count is 0 and the
    paragraph shows "Valore: 0". *)
Lemma Counter_initial_render :
  reachable mount ∧ count mount = Some 0 ∧ displayed mount = ["Valore: 0"].
Proof.
  split; [exact reachable_mount|].
  destruct (Counter_renders_Valore mount reachable_mount) as (c & Hc & Hd).
  split; [reflexivity|]. rewrite Hd.
  injection Hc as <-. reflexivity.
Defined.

(** C5, as amended.  In every reachable state the count is an integer with
    [0 ≤ count ≤ 2^53]; it is 0 on the freshly mounted page; a click on any
    button other than "Aumenta" and a re-render leave it unchanged; and a
    click on "Aumenta" sets it to the Number sum [count + 1], which is the
    old value plus 1 whenever the old value is below 2^53. *)
Theorem count_invariant (r : root) :
  reachable r →
  count mount = Some 0
  ∧ ∃ c : Z,
      count r = Some c
      ∧ 0 ≤ c ≤ Js.two53
      ∧ count (click "Aumenta" r) = Some (Js.number_add c 1)
      ∧ (c < Js.two53 → count (click "Aumenta" r) = Some (c + 1))
      ∧ (∀ label, label ≠ "Aumenta" → count (click label r) = Some c)
      ∧ (∀ name, count (rerender name r) = Some c).
Proof.
  intros (c & l & n & Hs & Hc)%reachable_invariant.
  split; [done|]. exists c.
  pose proof (proj1 (click_Aumenta_shows _ _ _ _ Hs)) as Hs'.
  split_and!.
  - by eapply count_shows.
  - lia.
  - lia.
  - by eapply count_shows.
  - intros Hlt. rewrite <- number_add_1_exact by lia. by eapply count_shows.
  - intros label Hl. destruct (decide (label = "Aggiungi")) as [->|H2].
    + eapply count_shows. by eapply click_Aggiungi_shows.
    + rewrite (click_other _ _ _ _ _ Hs) by done. by eapply count_shows.
  - intros name. eapply count_shows. by eapply rerender_shows.
Qed.

Lemma count_invariant_after_one_click :
  reachable (click "Aumenta" mount)
  ∧ count mount = Some 0
  ∧ ∃ c : Z,
      count (click "Aumenta" mount) = Some c
      ∧ 0 ≤ c ≤ Js.two53
      ∧ count (click "Aumenta" (click "Aumenta" mount))
        = Some (Js.number_add c 1)
      ∧ (c < Js.two53 →
         count (click "Aumenta" (click "Aumenta" mount)) = Some (c + 1))
      ∧ (∀ label, label ≠ "Aumenta" →
           count (click label (click "Aumenta" mount)) = Some c)
      ∧ (∀ name, count (rerender name (click "Aumenta" mount)) = Some c).
Proof.
  split.
  - exact (reachable_click "Aumenta" mount reachable_mount).
  - exact (count_invariant (click "Aumenta" mount)
             (reachable_click "Aumenta" mount reachable_mount)).
Defined.

(** C5 as stated fails: the state reached by 2^53 clicks holds the count
    2^53, and one more click leaves it at 2^53 instead of setting it to
    2^53 + 1. *)
Lemma increment_at_two53 :
  reachable (clicks 9007199254740992 "Aumenta" mount)
  ∧ count (clicks 9007199254740992 "Aumenta" mount) = Some 9007199254740992
  ∧ count (click "Aumenta" (clicks 9007199254740992 "Aumenta" mount))
    = Some 9007199254740992
  ∧ count (click "Aumenta" (clicks 9007199254740992 "Aumenta" mount))
    ≠ Some (9007199254740992 + 1).
Proof.
  split; [apply clicks_reachable, reachable_mount|].
  pose proof (clicks_Aumenta_shows 9007199254740992) as Hs.
  rewrite Z.min_r in Hs by (vm_compute; discriminate).
  pose proof (proj1 (click_Aumenta_shows _ _ _ _ Hs)) as Hs'.
  rewrite (count_shows _ _ _ _ Hs), (count_shows _ _ _ _ Hs').
  split; [done|]. split; [done|]. vm_compute. discriminate.
Qed.

End CounterClaims.

(** * Rendering, state replacement and the frame of each trigger *)

Section PageClaims.
Import React Script.

(** C6.  In every reachable state, calling a component function ([Counter],
    [Lista], or any other of the page) twice in a row, with no click in
    between, returns the same tree both times; re-rendering the component
    leaves the tree on screen as it is, and re-rendering it once more gives
    that tree again; the two state cells are not changed by rendering.  The
    output depends on the cells only, although a render of [Lista] allocates
    (the array literal passed to [useState]) and so leaves a larger heap
    behind. *)
Theorem rerender_same_tree (r : root) (name : string) :
  reachable r →
  (∀ f, function_of name = Some f →
        (f (f (memory r)).2).1 = (f (memory r)).1)
  ∧ screen (rerender name r) = screen r
  ∧ screen (rerender name (rerender name r)) = screen (rerender name r)
  ∧ displayed (rerender name r) = displayed r
  ∧ rendered_items (rerender name r) = rendered_items r
  ∧ count (rerender name r) = count r
  ∧ items (rerender name r) = items r
  ∧ heap (memory r) ⊆ heap (memory (rerender name r)).
Proof.
  intros (c & l & n & Hs & _)%reachable_invariant.
  pose proof (rerender_shows name _ _ _ _ Hs) as [H1 Hh].
  pose proof (rerender_shows name _ _ _ _ H1) as [H2 _].
  split_and!.
  - intros f Hf. by eapply component_output_stable, Hs.
  - by rewrite (proj2 H1), (proj2 Hs).
  - by rewrite (proj2 H2), (proj2 H1).
  - by rewrite (displayed_shows _ _ _ _ H1), (displayed_shows _ _ _ _ Hs).
  - by rewrite (rendered_items_shows _ _ _ _ H1),
      (rendered_items_shows _ _ _ _ Hs).
  - by rewrite (count_shows _ _ _ _ H1), (count_shows _ _ _ _ Hs).
  - by rewrite (items_shows _ _ _ _ H1), (items_shows _ _ _ _ Hs).
  - done.
Qed.

Lemma rerender_same_tree_Lista :
  reachable (click "Aggiungi" mount)
  ∧ screen (rerender "Lista" (click "Aggiungi" mount))
    = screen (click "Aggiungi" mount)
  ∧ screen (rerender "Lista" (rerender "Lista" (click "Aggiungi" mount)))
    = screen (rerender "Lista" (click "Aggiungi" mount))
  ∧ rendered_items (rerender "Lista" (click "Aggiungi" mount))
    = ["ALALALALA"; "Elemento 2"].
Proof.
  assert (Hr : reachable (click "Aggiungi" mount)).
  { apply reachable_click, reachable_mount. }
  split; [exact Hr|].
  destruct (rerender_same_tree (click "Aggiungi" mount) "Lista" Hr)
    as (_ & H1 & H2 & _ & H4 & _).
  split; [exact H1|]. split; [exact H2|]. rewrite H4. reflexivity.
Defined.

(** C7.  In every reachable state and for every click: no array that exists
    before the click is changed by it, so the previous list is intact; a
    click on "Aggiungi" makes the Lista's cell refer to an array that did not
    exist before; and when the click has completed no re-render is pending
    and the screen is the page of the values the cells now hold, the values
    captured by the handlers included. *)
Theorem mutation_replaces_wholesale (r : root) (label : string) :
  reachable r →
  heap (memory r) ⊆ heap (memory (click label r))
  ∧ (∀ l xs, items_cell (memory r) = Some l →
       heap (memory r) !! l = Some xs →
       heap (memory (click label r)) !! l = Some xs)
  ∧ (label = "Aggiungi" →
     ∃ l', items_cell (memory (click label r)) = Some l'
           ∧ heap (memory r) !! l' = None)
  ∧ ∃ c l xs,
      count_cell (memory (click label r)) = Some c
      ∧ items_cell (memory (click label r)) = Some l
      ∧ heap (memory (click label r)) !! l = Some xs
      ∧ queue (memory (click label r)) = []
      ∧ screen (click label r) = page c l xs
      ∧ displayed (click label r) = [Js.string_add_number "Valore: " c]
      ∧ rendered_items (click label r) = xs
      ∧ onClick_of "Aumenta" (screen (click label r))
        = Some (counter_onClick c)
      ∧ onClick_of "Aggiungi" (screen (click label r))
        = Some (aggiungiElemento l).
Proof.
  intros Hr. pose proof (reachable_invariant _ Hr) as (c & l & n & Hs & _).
  pose proof (click_heap_mono label _ _ _ _ Hs) as Hmono.
  split_and!.
  - done.
  - intros l0 xs _ Hl0. by eapply lookup_weaken.
  - intros ->. eexists. split.
    + by apply (click_Aggiungi_shows _ _ _ _ Hs).
    + apply fresh_unallocated.
  - pose proof (reachable_invariant _ (reachable_click label r Hr))
      as (c' & l' & n' & Hs' & _).
    exists c', l', (entries n').
    pose proof Hs' as [(Hc' & Hi' & Hl' & Hq') Hscreen].
    split_and!; try done.
    + by eapply displayed_shows.
    + by eapply rendered_items_shows.
    + by rewrite Hscreen, onClick_of_page.
    + by rewrite Hscreen, onClick_of_page.
Qed.

Lemma mutation_replaces_wholesale_fresh :
  reachable mount
  ∧ heap (memory mount) ⊆ heap (memory (click "Aggiungi" mount))
  ∧ heap (memory (click "Aggiungi" mount)) !! 1%positive
    = Some ["ALALALALA"]
  ∧ ∃ l', items_cell (memory (click "Aggiungi" mount)) = Some l'
          ∧ heap (memory mount) !! l' = None.
Proof.
  split; [exact reachable_mount|].
  destruct (mutation_replaces_wholesale mount "Aggiungi" reachable_mount)
    as (H1 & H2 & H3 & _).
  split; [exact H1|]. split.
  - exact (H2 1%positive ["ALALALALA"] eq_refl eq_refl).
  - exact (H3 eq_refl).
Defined.

(** C9.  In every reachable state a click on "Aumenta" leaves the heap, the
    Lista's cell, the array it refers to and the rendered list unchanged, and
    a click on "Aggiungi" leaves the Counter's cell and its display
    unchanged. *)
Theorem triggers_disjoint (r : root) :
  reachable r →
  (heap (memory (click "Aumenta" r)) = heap (memory r)
   ∧ items_cell (memory (click "Aumenta" r)) = items_cell (memory r)
   ∧ items (click "Aumenta" r) = items r
   ∧ rendered_items (click "Aumenta" r) = rendered_items r)
  ∧ (count (click "Aggiungi" r) = count r
     ∧ displayed (click "Aggiungi" r) = displayed r).
Proof.
  intros (c & l & n & Hs & _)%reachable_invariant.
  pose proof (click_Aumenta_shows _ _ _ _ Hs) as [Ha Hh].
  pose proof (click_Aggiungi_shows _ _ _ _ Hs) as [Hb _].
  split; split_and!.
  - done.
  - destruct Ha as [(_ & -> & _) _]. by destruct Hs as [(_ & -> & _) _].
  - by rewrite (items_shows _ _ _ _ Ha), (items_shows _ _ _ _ Hs).
  - by rewrite (rendered_items_shows _ _ _ _ Ha),
      (rendered_items_shows _ _ _ _ Hs).
  - by rewrite (count_shows _ _ _ _ Hb), (count_shows _ _ _ _ Hs).
  - by rewrite (displayed_shows _ _ _ _ Hb), (displayed_shows _ _ _ _ Hs).
Qed.

Lemma triggers_disjoint_after_clicks :
  reachable (click "Aggiungi" (click "Aumenta" mount))
  ∧ (items (click "Aumenta" (click "Aggiungi" (click "Aumenta" mount)))
     = Some ["ALALALALA"; "Elemento 2"])
  ∧ (count (click "Aggiungi" (click "Aggiungi" (click "Aumenta" mount)))
     = Some 1).
Proof.
  assert (Hr : reachable (click "Aggiungi" (click "Aumenta" mount))).
  { apply reachable_click, reachable_click, reachable_mount. }
  split; [exact Hr|].
  destruct (triggers_disjoint _ Hr) as [(_ & _ & Hi & _) (Hc & _)].
  split.
  - rewrite Hi. reflexivity.
  - rewrite Hc. reflexivity.
Defined.

End PageClaims.

(** * The Home page *)

Section HomeClaims.
Import React.

(** C8.  The tree mounted for the Home page has exactly one heading
    element, an [h1] whose text is "Contapersone", and no interactive
    element: no button or other control and no element with a
    function-valued property.  [Home] and its [App] use no state: run on any
    memory they return this same tree and leave the memory as it was. *)
Theorem Home_one_heading_nothing_interactive :
  List.filter heading (elements HomePage.mount)
  = [e "h1" [] [Text "Contapersone"]]
  ∧ textContent <$> List.filter heading (elements HomePage.mount)
    = ["Contapersone"]
  ∧ List.filter interactive (elements HomePage.mount) = []
  ∧ select "button" HomePage.mount = []
  ∧ ∀ w, HomePage.App w = ((HomePage.App unmounted).1, w).
Proof.
  split_and!; try reflexivity.
Qed.

End HomeClaims.

(** * The list entries and their keys *)

Section Keys.
Import React Script.

Lemma rendered_entries_shows r c l xs :
  shows r c l xs →
  rendered_entries r
  = imap (λ i x, (Some (Js.number_to_string (Z.of_nat i)), x)) xs.
Proof.
  intros [_ Hs]. unfold rendered_entries.
  rewrite Hs, select_li_page, fmap_imap. by apply imap_ext.
Qed.

Lemma rendered_keys_shows r c l xs :
  shows r c l xs →
  rendered_keys r
  = (λ i, Some (Js.number_to_string (Z.of_nat i))) <$> seq 0 (length xs).
Proof.
  intros [_ Hs]. unfold rendered_keys.
  rewrite Hs, select_li_page, fmap_imap, <- imap_seq_0. by apply imap_ext.
Qed.

(** X1.  In every reachable state the list entries are keyed by their
    position: the keys on screen are the numerals "0", "1", ...,
    [length - 1] in this order, one per element of the list state, no two
    entries share a key, and no entry has a prop named [key]. *)
Theorem entries_keyed_by_position (r : root) :
  reachable r →
  ∃ xs : list string,
    items r = Some xs
    ∧ rendered_keys r
      = (λ i, Some (Js.number_to_string (Z.of_nat i))) <$> seq 0 (length xs)
    ∧ (∀ li, li ∈ select "li" (screen r) → prop "key" li = None)
    ∧ length (rendered_keys r) = length (rendered_items r)
    ∧ NoDup (rendered_keys r).
Proof.
  intros (c & l & n & Hs & _)%reachable_invariant. exists (entries n).
  rewrite (rendered_keys_shows _ _ _ _ Hs), (rendered_items_shows _ _ _ _ Hs).
  split_and!.
  - by eapply items_shows.
  - done.
  - rewrite (proj2 Hs), select_li_page.
    by intros li (i & x & -> & _)%elem_of_lookup_imap.
  - by rewrite length_fmap, length_seq.
  - apply NoDup_fmap_2; [|apply NoDup_seq].
    intros i j [= Hij]. apply (inj pretty) in Hij. lia.
Qed.

Lemma entries_keyed_by_position_two :
  reachable (click "Aggiungi" mount)
  ∧ rendered_keys (click "Aggiungi" mount) = [Some "0"; Some "1"].
Proof.
  assert (Hr : reachable (click "Aggiungi" mount)).
  { apply reachable_click, reachable_mount. }
  split; [exact Hr|].
  destruct (entries_keyed_by_position _ Hr) as (xs & Hi & Hk & _).
  rewrite Hk. injection Hi as <-. reflexivity.
Defined.

(** X2.  In every reachable state and for every click, the entries on
    screen before the click, each with its key and its text, are an initial
    segment of the entries on screen after it: an entry is never removed,
    moved, re-keyed or rewritten, so a key denotes the same item for as long
    as the page lives. *)
Theorem entries_keep_key_and_text (r : root) (label : string) :
  reachable r →
  rendered_entries r `prefix_of` rendered_entries (click label r).
Proof.
  intros (c & l & n & Hs & _)%reachable_invariant.
  destruct (decide (label = "Aumenta")) as [->|H1];
    [|destruct (decide (label = "Aggiungi")) as [->|H2]].
  - pose proof (proj1 (click_Aumenta_shows _ _ _ _ Hs)) as Hs'.
    by rewrite (rendered_entries_shows _ _ _ _ Hs),
      (rendered_entries_shows _ _ _ _ Hs').
  - pose proof (proj1 (click_Aggiungi_shows _ _ _ _ Hs)) as Hs'.
    rewrite (rendered_entries_shows _ _ _ _ Hs),
      (rendered_entries_shows _ _ _ _ Hs').
    destruct (Z.lt_ge_cases (Js.array_length (entries n))
                Js.max_array_length) as [Hlt|Hge].
    + rewrite appended_grows, imap_app by done. by apply prefix_app_r.
    + by rewrite appended_full.
  - by rewrite (click_other _ _ _ _ _ Hs).
Qed.

Lemma entries_keep_key_and_text_fresh :
  reachable mount
  ∧ rendered_entries mount = [(Some "0", "ALALALALA")]
  ∧ [(Some "0", "ALALALALA")]
    `prefix_of` rendered_entries (click "Aggiungi" mount).
Proof.
  split; [exact reachable_mount|]. split; [reflexivity|].
  exact (entries_keep_key_and_text mount "Aggiungi" reachable_mount).
Defined.

End Keys.

(** * The skeleton of the page *)

Section Skeleton.
Import React Script.

Local Ltac page_tree :=
  unfold page, App_return, Header_return, Counter_return, Lista_return,
    Footer_return; cbn.

Lemma component_Header_page c l xs :
  component "Header" (page c l xs) = [Header_return].
Proof. page_tree. by rewrite component_entries. Qed.

Lemma component_Footer_page c l xs :
  component "Footer" (page c l xs) = [Footer_return].
Proof. page_tree. by rewrite component_entries. Qed.


Lemma select_other_page tag c l xs :
  tag ∈ ["h1"; "h2"; "input"; "select"; "textarea"; "a"] →
  select tag (page c l xs) = select tag (page c l []).
Proof.
  intros Htag. page_tree. rewrite select_entries.
  repeat (apply elem_of_cons in Htag as [->|Htag]; [done|]).
  by apply elem_of_nil in Htag.
Qed.

(** X3.  In every reachable state the page has the skeleton it was mounted
    with: the trees of [Header] and [Footer] are those of the first render,
    the headings read "Il mio sito con React", "Contatore" and
    "Lista dinamica", there are exactly two buttons, "Aumenta" and
    "Aggiungi" in this order, each with an [onClick] handler, and there is
    no input, select, textarea or link. *)
Theorem page_skeleton (r : root) :
  reachable r →
  component "Header" (screen r) = component "Header" (screen mount)
  ∧ component "Footer" (screen r) = component "Footer" (screen mount)
  ∧ textContent <$> select "h1" (screen r) = ["Il mio sito con React"]
  ∧ textContent <$> select "h2" (screen r) = ["Contatore"; "Lista dinamica"]
  ∧ buttons r = ["Aumenta"; "Aggiungi"]
  ∧ (∀ label, label ∈ buttons r → is_Some (onClick_of label (screen r)))
  ∧ (∀ label, label ∉ buttons r → click label r = r)
  ∧ (∀ tag, tag ∈ ["input"; "select"; "textarea"; "a"] →
       select tag (screen r) = []).
Proof.
  intros (c & l & n & Hs & _)%reachable_invariant.
  assert (Hb : buttons r = ["Aumenta"; "Aggiungi"]).
  { unfold buttons. by rewrite (proj2 Hs), select_button_page. }
  rewrite Hb, (proj2 Hs). split_and!.
  - by rewrite component_Header_page.
  - by rewrite component_Footer_page.
  - by rewrite select_other_page by repeat constructor.
  - by rewrite select_other_page by repeat constructor.
  - done.
  - intros label Hl. rewrite onClick_of_page.
    repeat (apply elem_of_cons in Hl as [->|Hl]; [done|]).
    by apply elem_of_nil in Hl.
  - intros label Hl. rewrite !not_elem_of_cons in Hl.
    destruct Hl as (H1 & H2 & _). by apply (click_other _ _ _ _ _ Hs).
  - intros tag Htag.
    repeat (apply elem_of_cons in Htag as [->|Htag];
            [by rewrite select_other_page by repeat constructor|]).
    by apply elem_of_nil in Htag.
Qed.

Lemma page_skeleton_after_clicks :
  reachable (click "Aggiungi" (click "Aumenta" mount))
  ∧ buttons (click "Aggiungi" (click "Aumenta" mount))
    = ["Aumenta"; "Aggiungi"]
  ∧ component "Footer" (screen (click "Aggiungi" (click "Aumenta" mount)))
    = [Footer_return].
Proof.
  assert (Hr : reachable (click "Aggiungi" (click "Aumenta" mount))).
  { apply reachable_click, reachable_click, reachable_mount. }
  split; [exact Hr|].
  destruct (page_skeleton _ Hr) as (_ & Hf & _ & _ & Hb & _).
  split; [exact Hb|]. rewrite Hf. reflexivity.
Defined.

End Skeleton.

(** * Sequences of clicks *)

Section Sequences.
Import React Script.

Lemma root_eq r1 r2 c l xs :
  shows r1 c l xs → shows r2 c l xs →
  heap (memory r1) = heap (memory r2) → r1 = r2.
Proof.
  destruct r1 as [[h1 c1 i1 q1] s1], r2 as [[h2 c2 i2 q2] s2].
  unfold shows, mounted. cbn.
  intros [(-> & -> & _ & ->) ->] [(-> & -> & _ & ->) ->] ->. done.
Qed.

(** The heap a click on "Aggiungi" leaves: the new array, and the array
    literal the re-render of [Lista] evaluates. *)
Lemma click_Aggiungi_heap r c l xs :
  shows r c l xs →
  heap (memory (click "Aggiungi" r))
  = (array_literal ["ALALALALA"]
       (array_literal (appended xs) (memory r)).2).2.(heap).
Proof.
  intros [(Hc & Hi & Hl & Hq) Hs]. unfold click.
  rewrite Hs, onClick_of_page, decide_False, decide_True by done.
  set (l' := fresh (dom (heap (memory r)))).
  set (xs' := appended xs).
  assert (Hcall : (call (aggiungiElemento l) (memory r)).2
                  = enqueue "Lista"
                      (put items_hook l' (array_literal xs' (memory r)).2)).
  { unfold call, bind, array_elements, setState. cbn. by rewrite Hl. }
  rewrite Hcall.
  rewrite (flush_single "Lista") by (cbn; by rewrite Hq).
  unfold rerender. change (function_of "Lista") with (Some Lista).
  cbn [memory screen].
  assert (Hm : mounted
                 (clear_queue
                    (enqueue "Lista"
                       (put items_hook l' (array_literal xs' (memory r)).2)))
                 c l' xs').
  { repeat split; cbn; [done|]. apply lookup_insert_eq. }
  by rewrite (Lista_mounted _ _ _ _ Hm).
Qed.

Lemma run_snoc labels label r :
  run (labels ++ [label]) r = click label (run labels r).
Proof. unfold run. by rewrite foldl_snoc. Qed.

Lemma presses_snoc label labels x :
  presses label (labels ++ [x])
  = (presses label labels + if decide (x = label) then 1 else 0)%nat.
Proof.
  unfold presses. rewrite filter_app, length_app. f_equal.
  rewrite filter_cons, filter_nil. by case_decide.
Qed.

Lemma run_shows labels :
  ∃ l, shows (run labels mount)
         (Z.min (Z.of_nat (presses "Aumenta" labels)) Js.two53) l
         (entries (appended_after (Z.of_nat (presses "Aggiungi" labels)))).
Proof.
  induction labels as [|x labels [l IH]] using rev_ind.
  - exists 1%positive. apply mount_shows.
  - rewrite run_snoc, !presses_snoc. repeat case_decide; simplify_eq.
    + exists l. rewrite Nat.add_0_r, Nat2Z.inj_add.
      rewrite <- number_add_1_min by lia. by apply click_Aumenta_shows.
    + eexists. rewrite Nat.add_0_r, Nat2Z.inj_add.
      rewrite <- appended_after_succ by lia.
      by eapply click_Aggiungi_shows.
    + exists l. rewrite !Nat.add_0_r.
      by rewrite (click_other _ _ _ _ _ IH).
Qed.

(** X5.  The two buttons commute: in every reachable state, clicking
    "Aggiungi" and then "Aumenta" leaves the page, screen and memory, exactly
    as clicking "Aumenta" and then "Aggiungi" does. *)
Theorem clicks_commute (r : root) :
  reachable r →
  click "Aumenta" (click "Aggiungi" r) = click "Aggiungi" (click "Aumenta" r).
Proof.
  intros (c & l & n & Hs & _)%reachable_invariant.
  pose proof (click_Aumenta_shows _ _ _ _ Hs) as [Ha Hha].
  pose proof (click_Aggiungi_shows _ _ _ _ Hs) as [Hb _].
  pose proof (click_Aumenta_shows _ _ _ _ Hb) as [Hba Hhba].
  pose proof (click_Aggiungi_shows _ _ _ _ Ha) as [Hab _].
  rewrite Hha in Hab. apply (root_eq _ _ _ _ _ Hba Hab).
  rewrite Hhba, (click_Aggiungi_heap _ _ _ _ Hs),
    (click_Aggiungi_heap _ _ _ _ Ha).
  cbn. by rewrite Hha.
Qed.

Lemma clicks_commute_fresh :
  reachable mount
  ∧ click "Aumenta" (click "Aggiungi" mount)
    = click "Aggiungi" (click "Aumenta" mount).
Proof.
  split; [exact reachable_mount|].
  exact (clicks_commute mount reachable_mount).
Defined.

(** X6.  What a sequence of clicks on the fresh page leaves depends only on
    how often each button was clicked, not on the order, and clicks on labels
    no button shows count for nothing: with [a] clicks on "Aumenta" and [b]
    on "Aggiungi" the count is the smaller of [a] and 2^53, the display
    shows it, and the list, in the state and on screen, is the seed followed
    by the labels 2, ..., [b' + 1], where [b'] is the smaller of [b] and
    2^32 - 2. *)
Theorem run_depends_on_presses_only (labels : list string) :
  count (run labels mount)
  = Some (Z.min (Z.of_nat (presses "Aumenta" labels)) Js.two53)
  ∧ displayed (run labels mount)
    = [Js.string_add_number "Valore: "
         (Z.min (Z.of_nat (presses "Aumenta" labels)) Js.two53)]
  ∧ items (run labels mount)
    = Some (entries (appended_after (Z.of_nat (presses "Aggiungi" labels))))
  ∧ rendered_items (run labels mount)
    = entries (appended_after (Z.of_nat (presses "Aggiungi" labels))).
Proof.
  destruct (run_shows labels) as [l Hs]. split_and!.
  - by eapply count_shows.
  - by eapply displayed_shows.
  - by eapply items_shows.
  - by eapply rendered_items_shows.
Qed.



(** X7.  Once the count is 2^53 the button "Aumenta" does nothing: in a
    reachable state with that count a click on it leaves the page, screen and
    memory, exactly as it is. *)
Theorem Aumenta_idle_at_two53 (r : root) :
  reachable r →
  count r = Some Js.two53 →
  click "Aumenta" r = r.
Proof.
  intros (c & l & n & Hs & _)%reachable_invariant Hc.
  rewrite (count_shows _ _ _ _ Hs) in Hc. injection Hc as ->.
  pose proof (click_Aumenta_shows _ _ _ _ Hs) as [Ha Hh].
  rewrite number_add_1_top in Ha. by apply (root_eq _ _ _ _ _ Ha Hs).
Qed.

Lemma Aumenta_idle_at_two53_reached :
  reachable (clicks 9007199254740992 "Aumenta" mount)
  ∧ count (clicks 9007199254740992 "Aumenta" mount) = Some Js.two53
  ∧ click "Aumenta" (clicks 9007199254740992 "Aumenta" mount)
    = clicks 9007199254740992 "Aumenta" mount.
Proof.
  assert (Hr : reachable (clicks 9007199254740992 "Aumenta" mount)).
  { apply clicks_reachable, reachable_mount. }
  assert (Hc : count (clicks 9007199254740992 "Aumenta" mount)
               = Some Js.two53).
  { pose proof (clicks_Aumenta_shows 9007199254740992) as Hs.
    rewrite Z.min_r in Hs by (vm_compute; discriminate).
    exact (count_shows _ _ _ _ Hs). }
  split; [exact Hr|]. split; [exact Hc|].
  exact (Aumenta_idle_at_two53 _ Hr Hc).
Defined.

(** X8.  The screen tells the state: two reachable states whose Counter
    paragraphs show the same text hold the same count, and two whose lists
    show the same entries hold the same list. *)
Theorem screen_determines_state (r1 r2 : root) :
  reachable r1 →
  reachable r2 →
  (displayed r1 = displayed r2 → count r1 = count r2)
  ∧ (rendered_items r1 = rendered_items r2 → items r1 = items r2).
Proof.
  intros (c1 & l1 & n1 & Hs1 & _)%reachable_invariant
         (c2 & l2 & n2 & Hs2 & _)%reachable_invariant.
  rewrite (displayed_shows _ _ _ _ Hs1), (displayed_shows _ _ _ _ Hs2),
    (rendered_items_shows _ _ _ _ Hs1), (rendered_items_shows _ _ _ _ Hs2),
    (count_shows _ _ _ _ Hs1), (count_shows _ _ _ _ Hs2),
    (items_shows _ _ _ _ Hs1), (items_shows _ _ _ _ Hs2).
  split.
  - intros H. f_equal. apply (string_add_number_inj "Valore: ").
    exact (f_equal (λ l, default "" (head l)) H).
  - by intros ->.
Qed.

Lemma screen_determines_state_two_orders :
  reachable (click "Aumenta" mount)
  ∧ reachable (click "Aumenta" (click "Aggiungi" mount))
  ∧ count (click "Aumenta" mount)
    = count (click "Aumenta" (click "Aggiungi" mount)).
Proof.
  assert (H1 : reachable (click "Aumenta" mount)).
  { apply reachable_click, reachable_mount. }
  assert (H2 : reachable (click "Aumenta" (click "Aggiungi" mount))).
  { apply reachable_click, reachable_click, reachable_mount. }
  split; [exact H1|]. split; [exact H2|].
  exact (proj1 (screen_determines_state _ _ H1 H2) eq_refl).
Defined.

End Sequences.
